(** * Airbnb Seattle dashboard (src/app.py): filter engine and aggregations

    A shallow embedding of the data path of [app.py]: the loaded table
    [df], the price slider's bounds (line 55), the sidebar filter producing
    [filtered_df] (lines 58-65), the KPI means (lines 75-77), the grouped
    aggregations [top_neigh], [top_avail] and [avg_reviews] (lines 85, 105,
    119), the figures built from them (lines 86-123), one run of the script
    over a store of DataFrames, and the CSV export (line 69) with pandas
    reading it back. *)

From Stdlib Require Import QArith Qround ZArith Ascii String Sorting.Permutation Sorting.Sorted Lqa.
From Stdlib Require OrderedTypeEx.
From stdpp Require Import base list gmap.

Local Open Scope Q_scope.

(** ** Data model *)

(** The column [host_is_superhost] as pandas holds it after [read_csv]:
    an object column with booleans and NaN, or strings when the file spells
    the flag as ["t"]/["f"]. *)
Inductive cell :=
| HBool (b : bool)
| HStr (s : string)
| HNaN.

(** One listing record (a row of [df]); columns that may be absent are
    [option Q], with [None] standing for NaN. *)
Record listing := {
  neighbourhood_cleansed : string;
  room_type : string;
  price : Q;
  review_score_avg : option Q;
  host_is_superhost : cell;
  availability_365 : Z;
  cancellation_policy : string;
  reviews_per_month : option Q;
  name : string
}.

(** A DataFrame: rows in order, each with its index label. *)
Definition table := list (nat * listing).

(** ** Boolean-mask indexing: [df[mask]] keeps the rows where the mask is
    true, in order, with their labels. *)
Fixpoint mask_rows (m : listing -> bool) (t : table) : table :=
  match t with
  | [] => []
  | (i, r) :: t' => if m r then (i, r) :: mask_rows m t' else mask_rows m t'
  end.

(** [Series.isin(values)] on a string column. *)
Definition isin (values : list string) (s : string) : bool :=
  existsb (String.eqb s) values.

(** [Series == True] on the object column: only a boolean [True] compares
    equal; NaN and strings compare unequal. *)
Definition eq_true (c : cell) : bool :=
  match c with
  | HBool b => b
  | HStr _ => false
  | HNaN => false
  end.

(** The sidebar widgets' values (lines 53-56). *)
Record criteria := {
  neighborhoods : list string;
  room_types : list string;
  min_price : Z;
  max_price : Z;
  superhost_filter : bool
}.

(** The price mask of line 63: [(price >= min_price) & (price <= max_price)]. *)
Definition price_mask (c : criteria) (r : listing) : bool :=
  Qle_bool (inject_Z (min_price c)) (price r) &&
  Qle_bool (price r) (inject_Z (max_price c)).

(** Lines 58-65: [filtered_df]. A list is truthy when non-empty. *)
Definition filtered_df (c : criteria) (df : table) : table :=
  let t0 := df in
  let t1 := match neighborhoods c with
            | [] => t0
            | ns => mask_rows (fun r => isin ns (neighbourhood_cleansed r)) t0
            end in
  let t2 := match room_types c with
            | [] => t1
            | rs => mask_rows (fun r => isin rs (room_type r)) t1
            end in
  let t3 := mask_rows (price_mask c) t2 in
  if superhost_filter c then mask_rows (fun r => eq_true (host_is_superhost r)) t3
  else t3.

(** The predicates the spec lists, one per criterion (empty set = no
    restriction). *)
Definition satisfies (c : criteria) (r : listing) : Prop :=
  (neighborhoods c = [] \/ In (neighbourhood_cleansed r) (neighborhoods c)) /\
  (room_types c = [] \/ In (room_type r) (room_types c)) /\
  inject_Z (min_price c) <= price r <= inject_Z (max_price c) /\
  (superhost_filter c = true -> host_is_superhost r = HBool true).

(** The filter engine's criteria with the superhost flag unset. *)
Definition without_superhost (c : criteria) : criteria :=
  {| neighborhoods := neighborhoods c; room_types := room_types c;
     min_price := min_price c; max_price := max_price c;
     superhost_filter := false |}.

(** The whole filter as one mask: the conjunction of the active
    predicates. *)
Definition row_mask (c : criteria) (r : listing) : bool :=
  match neighborhoods c with [] => true | ns => isin ns (neighbourhood_cleansed r) end &&
  match room_types c with [] => true | rs => isin rs (room_type r) end &&
  price_mask c r &&
  (if superhost_filter c then eq_true (host_is_superhost r) else true).

(** ** The price slider (line 55) *)

(** Python's [max] of two floats as pandas' [Series.max] folds it. *)
Definition qmax (a b : Q) : Q := if Qle_bool a b then b else a.

(** [df['price'].max()]: NaN ([None]) on an empty table. *)
Fixpoint price_max (t : table) : option Q :=
  match t with
  | [] => None
  | (_, r) :: t' =>
      match price_max t' with
      | None => Some (price r)
      | Some p => Some (qmax (price r) p)
      end
  end.

(** Python's [int(x)] on a float: truncation towards zero. *)
Definition int_of_float (q : Q) : Z :=
  if Qle_bool 0 q then Qfloor q else (- Qfloor (- q))%Z.

(** The slider's bounds (line 55). Its upper bound is
    [int(df['price'].max())]; [int(nan)] raises, modelled as [None].
    Streamlit then widens the bounds so that the default value [(50, 500)]
    lies inside them: [min_value = min(50, min(0, m))] and
    [max_value = max(500, max(min(0, m), m))]. *)
Definition slider_bounds (df : table) : option (Z * Z) :=
  match price_max df with
  | None => None
  | Some p =>
      let m := int_of_float p in
      Some (Z.min 50 (Z.min 0 m), Z.max 500 (Z.max (Z.min 0 m) m))
  end.

(** The criteria with no neighbourhood, room-type or superhost restriction
    and the price range [lo .. hi]. *)
Definition slider_range (lo hi : Z) : criteria :=
  {| neighborhoods := []; room_types := []; min_price := lo;
     max_price := hi; superhost_filter := false |}.

(** The same with the range [0 .. m]. *)
Definition full_range (m : Z) : criteria :=
  {| neighborhoods := []; room_types := []; min_price := 0;
     max_price := m; superhost_filter := false |}.

(** ** Aggregations (lines 75-77, 85, 105, 119) *)

(** The non-missing values of a column. *)
Fixpoint dropna (xs : list (option Q)) : list Q :=
  match xs with
  | [] => []
  | Some x :: xs' => x :: dropna xs'
  | None :: xs' => dropna xs'
  end.

Fixpoint qsum (xs : list Q) : Q :=
  match xs with [] => 0 | x :: xs' => x + qsum xs' end.

(** [Series.mean()] (skipna=True): NaN ([None]) when no value is present. *)
Definition mean (xs : list (option Q)) : option Q :=
  match dropna xs with
  | [] => None
  | ys => Some (qsum ys / inject_Z (Z.of_nat (length ys)))
  end.

(** The columns the aggregations read, as [option Q] (NaN = [None]). *)
Definition price_col (r : listing) : option Q := Some (price r).
Definition availability_col (r : listing) : option Q :=
  Some (inject_Z (availability_365 r)).

(** Group keys of [groupby(key)] with [sort=True]: the distinct keys,
    ascending (Python compares strings by code point). *)
Fixpoint insert_key (k : string) (ks : list string) : list string :=
  match ks with
  | [] => [k]
  | k' :: ks' =>
      match String.compare k k' with
      | Lt => k :: ks
      | Eq => ks
      | Gt => k' :: insert_key k ks'
      end
  end.

Definition group_keys (key : listing -> string) (t : table) : list string :=
  fold_right (fun ir acc => insert_key (key (snd ir)) acc) [] t.

(** The rows of one group, in table order. *)
Definition group_rows (key : listing -> string) (k : string) (t : table) : table :=
  mask_rows (fun r => String.eqb (key r) k) t.

(** [t.groupby(key)[col].mean()]: one (key, mean) entry per group. *)
Definition groupby_mean (key : listing -> string) (col : listing -> option Q)
    (t : table) : list (string * option Q) :=
  map (fun k => (k, mean (map (fun ir => col (snd ir)) (group_rows key k t))))
      (group_keys key t).

(** Comparison used by [sort_values]: two present means in the requested
    direction; NaN compares with nothing. *)
Definition ord_le (ascending : bool) (a b : option Q) : Prop :=
  match a, b with
  | Some x, Some y => if ascending then x <= y else y <= x
  | _, _ => False
  end.

(** [Series.sort_values(ascending=...)] with its default [kind='quicksort']
    and [na_position='last']: the output is a permutation of the input whose
    present values come first, sorted, followed by the NaN entries. numpy's
    quicksort is not stable, so the order among equal values is left open:
    the model is the relation of every output the sort may produce. *)
Definition sort_values (ascending : bool) (xs ys : list (string * option Q)) : Prop :=
  Permutation xs ys /\
  exists d n, ys = d ++ n /\
    Forall (fun kv => snd kv = None) n /\
    Forall (fun kv => snd kv <> None) d /\
    Sorted (fun a b => ord_le ascending (snd a) (snd b)) d.

(** [Series.head(10)]. *)
Definition head10 {A} (xs : list A) : list A := firstn 10 xs.

(** Line 85: [ys] is a series the descending sort of the
    per-neighbourhood mean prices may return; [top_neigh] is [head10 ys]. *)
Definition top_neigh (t : table) (ys : list (string * option Q)) : Prop :=
  sort_values false (groupby_mean neighbourhood_cleansed price_col t) ys.

(** Line 105: the same for [availability_365]; [top_avail] is
    [head10 ys]. *)
Definition top_avail (t : table) (ys : list (string * option Q)) : Prop :=
  sort_values false (groupby_mean neighbourhood_cleansed availability_col t) ys.

(** Line 119: [avg_reviews], mean [reviews_per_month] per room type,
    ascending. *)
Definition avg_reviews (t : table) (ys : list (string * option Q)) : Prop :=
  sort_values true (groupby_mean room_type reviews_per_month t) ys.

(** Lines 75-77: the KPI values. *)
Definition kpi_listings (t : table) : nat := length t.
Definition kpi_avg_price (t : table) : option Q :=
  mean (map (fun ir => price_col (snd ir)) t).
Definition kpi_avg_rating (t : table) : option Q :=
  mean (map (fun ir => review_score_avg (snd ir)) t).



(** ** The render cycle over a store of DataFrames (C9)

    Every DataFrame the script touches lives in a store of frames;
    [df.copy()] and [frame[mask]] allocate a new frame, and the
    aggregations only read. *)
Record heap := { next_loc : nat; frames : gmap nat table }.

(** Every allocated frame lies below the allocation pointer. *)
Definition heap_wf (h : heap) : Prop :=
  forall l t, frames h !! l = Some t -> (l < next_loc h)%nat.

(** A state monad over the store. A Python exception ([None]) stops the
    script; the store is left as it was when the exception was raised. *)
Definition M (A : Type) : Type := heap -> option A * heap.
Definition m_ret {A} (x : A) : M A := fun h => (Some x, h).
Definition m_raise {A} : M A := fun h => (None, h).
Definition m_bind {A B} (m : M A) (k : A -> M B) : M B :=
  fun h => match m h with (Some x, h') => k x h' | (None, h') => (None, h') end.
Notation "'let*' x := m 'in' k" := (m_bind m (fun x => k))
  (at level 200, x name, m at level 100, k at level 200).

(** Reading a frame ([KeyError] when absent). *)
Definition read_frame (l : nat) : M table :=
  fun h => match frames h !! l with Some t => (Some t, h) | None => (None, h) end.

(** Storing a new frame. *)
Definition alloc_frame (t : table) : M nat :=
  fun h => (Some (next_loc h),
            {| next_loc := S (next_loc h); frames := <[next_loc h := t]> (frames h) |}).

(** [frame.copy()]. *)
Definition copy_frame (l : nat) : M nat :=
  let* t := read_frame l in alloc_frame t.

(** [frame[mask]]. *)
Definition mask_frame (m : listing -> bool) (l : nat) : M nat :=
  let* t := read_frame l in alloc_frame (mask_rows m t).

(** Line 55: the slider's bounds; [int(nan)] raises on an empty table. *)
Definition slider_step (d : table) : M (Z * Z) :=
  match slider_bounds d with Some b => m_ret b | None => m_raise end.

(** The figures of lines 86-123, with the data each one is built from. *)
Inductive chart :=
| LineChart (xs : list string) (ys : list (option Q))
| PieChart (t : table)
| ScatterChart (t : table)
| AreaChart (xs : list string) (ys : list (option Q))
| ViolinChart (t : table).

(** What the script takes from the libraries it calls and the model leaves
    open: whether plotly express raises on a figure's data (as [px.line]
    does on empty series), and the order numpy's quicksort gives a series
    sorted by [sort_values(ascending=...)]. *)
Record env := {
  plot_fails : chart -> bool;
  sort_series : bool -> list (string * option Q) -> list (string * option Q)
}.

(** Building a figure and showing it with [st.plotly_chart]: it reads its
    data and raises or not. *)
Definition plot (e : env) (ch : chart) : M unit :=
  fun h => (if plot_fails e ch then None else Some tt, h).

(** What one render cycle hands to the presentation layer. *)
Record render_output := {
  out_filtered : table;
  out_kpis : nat * option Q * option Q;
  out_top_neigh : list (string * option Q);
  out_top_avail : list (string * option Q);
  out_avg_reviews : list (string * option Q)
}.

(** Lines 58-65: the frames of the filter, ending at [filtered_df]. *)
Definition filter_frames (c : criteria) (l_df : nat) : M nat :=
  let* l0 := copy_frame l_df in
  let* l1 := match neighborhoods c with
             | [] => m_ret l0
             | ns => mask_frame (fun r => isin ns (neighbourhood_cleansed r)) l0
             end in
  let* l2 := match room_types c with
             | [] => m_ret l1
             | rs => mask_frame (fun r => isin rs (room_type r)) l1
             end in
  let* l3 := mask_frame (price_mask c) l2 in
  if superhost_filter c
  then mask_frame (fun r => eq_true (host_is_superhost r)) l3
  else m_ret l3.

(** Lines 75-123 on the filtered table [f]: the KPIs, then the six figures
    in order, each built from [f] or from an aggregation of it. *)
Definition charts (e : env) (f : table) : M render_output :=
  let top_neigh := head10 (sort_series e false
                     (groupby_mean neighbourhood_cleansed price_col f)) in
  let* _ := plot e (LineChart (map fst top_neigh) (map snd top_neigh)) in
  let* _ := plot e (PieChart f) in
  let* _ := plot e (ScatterChart f) in
  let top_avail := head10 (sort_series e false
                     (groupby_mean neighbourhood_cleansed availability_col f)) in
  let* _ := plot e (AreaChart (map fst top_avail) (map snd top_avail)) in
  let* _ := plot e (ViolinChart f) in
  let avg_reviews := sort_series e true (groupby_mean room_type reviews_per_month f) in
  let* _ := plot e (LineChart (map fst avg_reviews) (map snd avg_reviews)) in
  m_ret {| out_filtered := f;
           out_kpis := (kpi_listings f, kpi_avg_price f, kpi_avg_rating f);
           out_top_neigh := top_neigh;
           out_top_avail := top_avail;
           out_avg_reviews := avg_reviews |}.

(** Lines 41-123: one run of the script on the loaded frame [df] stored at
    [l_df], with the sidebar's values [c]. The sidebar options (lines
    53-54) and the CSV export (line 69) only read frames. *)
Definition render (e : env) (c : criteria) (l_df : nat) : M render_output :=
  let* d := read_frame l_df in
  let* _ := slider_step d in
  let* l := filter_frames c l_df in
  let* f := read_frame l in
  charts e f.

(** The store is well formed, [df] is still at [l_df], and the frame the
    script is working on is at [l] holding [t]. *)
Definition render_inv (l_df : nat) (df : table) (h : heap) (l : nat) (t : table) : Prop :=
  heap_wf h /\ frames h !! l_df = Some df /\ frames h !! l = Some t.

(** ** CSV export (line 69) and reading it back (C7)

    [to_csv(index=False)] writes the header and each row through Python's
    [csv.writer] with [QUOTE_MINIMAL] and the line terminator ["\n"];
    [pd.read_csv] tokenizes the text with pandas' C parser and names the
    columns from the header row. Text is [list ascii]. *)
Module Csv.





































End Csv.

(** ** Concrete tables *)

Definition listing_at (n rt : string) (p : Q) (h : cell) (rv : option Q) : listing :=
  {| neighbourhood_cleansed := n; room_type := rt; price := p;
     review_score_avg := Some 95; host_is_superhost := h;
     availability_365 := 120; cancellation_policy := "moderate";
     reviews_per_month := rv; name := "Cozy room" |}%string.

(** Four listings: a missing superhost flag, missing reviews per month,
    and a room type with no reviews at all. *)
Definition sample_df : table :=
  [(0%nat, listing_at "Ballard" "Private room" 100 HNaN None);
   (1%nat, listing_at "Ballard" "Private room" 200 (HBool true) (Some 3));
   (2%nat, listing_at "Belltown" "Shared room" 50 (HBool false) (Some 2));
   (3%nat, listing_at "Fremont" "Entire home/apt" 80 (HBool true) None)]%string.


(** One listing priced at 600.5. *)
Definition fractional_df : table :=
  [(0%nat, listing_at "Ballard" "Private room" (1201 # 2) HNaN None)]%string.

Definition superhost_criteria : criteria :=
  {| neighborhoods := []; room_types := []; min_price := 0; max_price := 500;
     superhost_filter := true |}.

(** The spec's scenario: price range 600-700 above every price. *)
Definition empty_criteria : criteria :=
  {| neighborhoods := []; room_types := []; min_price := 600; max_price := 700;
     superhost_filter := false |}.

Definition sample_heap : heap :=
  {| next_loc := 1; frames := {[0%nat := sample_df]} |}.



(** A plotly that raises on a line or area chart with no data, and a sort
    that keeps a series in the order of its groups. *)
Definition empty_line_fails : env :=
  {| plot_fails := fun ch =>
       match ch with LineChart [] _ | AreaChart [] _ => true | _ => false end;
     sort_series := fun _ xs => xs |}.


(** ** Sidebar options (lines 53-54) *)

(** [Series.unique()]: the distinct values in order of first appearance. *)
Fixpoint unique_rev (seen : list string) (xs : list string) : list string :=
  match xs with
  | [] => seen
  | x :: xs' =>
      if existsb (String.eqb x) seen then unique_rev seen xs'
      else unique_rev (x :: seen) xs'
  end.

Definition unique (xs : list string) : list string := rev (unique_rev [] xs).

(** Python's [sorted] on strings: a stable insertion sort by code point. *)
Fixpoint sorted_insert (x : string) (ys : list string) : list string :=
  match ys with
  | [] => [x]
  | y :: ys' =>
      match String.compare x y with
      | Lt => x :: ys
      | _ => y :: sorted_insert x ys'
      end
  end.

Definition py_sorted (xs : list string) : list string :=
  fold_right sorted_insert [] (rev xs).

(** [sorted(df[col].unique())], the options of a multiselect. *)
Definition multiselect_options (key : listing -> string) (df : table) : list string :=
  py_sorted (unique (map (fun ir => key (snd ir)) df)).

(** The criteria with another neighbourhood or room-type selection. *)
Definition with_neighborhoods (c : criteria) (ns : list string) : criteria :=
  {| neighborhoods := ns; room_types := room_types c; min_price := min_price c;
     max_price := max_price c; superhost_filter := superhost_filter c |}.

Definition with_room_types (c : criteria) (rs : list string) : criteria :=
  {| neighborhoods := neighborhoods c; room_types := rs; min_price := min_price c;
     max_price := max_price c; superhost_filter := superhost_filter c |}.

(** One criteria is at most as restrictive as another: every neighbourhood
    and room type the first admits is admitted, the price range is at least
    as wide, and the superhost flag is set only if it is set in the first. *)
Definition looser (c c' : criteria) : Prop :=
  (neighborhoods c' = [] \/
     (neighborhoods c <> [] /\ incl (neighborhoods c) (neighborhoods c'))) /\
  (room_types c' = [] \/
     (room_types c <> [] /\ incl (room_types c) (room_types c'))) /\
  (min_price c' <= min_price c)%Z /\ (max_price c <= max_price c')%Z /\
  (superhost_filter c' = true -> superhost_filter c = true).

(** String order as Python compares strings (by code point). *)
Definition str_lt (a b : string) : Prop := String.compare a b = Lt.
Definition str_le (a b : string) : Prop := String.compare a b <> Gt.

(** * Proofs *)

(** ** Facts about boolean-mask indexing *)

Lemma mask_rows_sublist (m : listing -> bool) (t : table) :
  sublist (mask_rows m t) t.
Proof.
  induction t as [|[i r] t IH]; simpl; [constructor|].
  destruct (m r); [apply sublist_skip | apply sublist_cons]; exact IH.
Qed.

Lemma mask_rows_In (m : listing -> bool) (t : table) i r :
  In (i, r) (mask_rows m t) <-> In (i, r) t /\ m r = true.
Proof.
  induction t as [|[j s] t IH]; simpl; [tauto|].
  destruct (m s) eqn:Hs; simpl; rewrite IH; split.
  - intros [Heq | [Hin Hm]]; [inversion Heq; subst; auto | auto].
  - intros [[Heq | Hin] Hm]; [auto | auto].
  - intros [Hin Hm]; auto.
  - intros [[Heq | Hin] Hm]; [inversion Heq; subst; congruence | auto].
Qed.

Lemma mask_rows_mask_rows (m1 m2 : listing -> bool) (t : table) :
  mask_rows m1 (mask_rows m2 t) = mask_rows (fun r => m2 r && m1 r) t.
Proof.
  induction t as [|[i r] t IH]; simpl; [reflexivity|].
  destruct (m2 r); simpl; [destruct (m1 r); simpl|]; rewrite IH; reflexivity.
Qed.

Lemma mask_rows_ext (m1 m2 : listing -> bool) (t : table) :
  (forall r, m1 r = m2 r) -> mask_rows m1 t = mask_rows m2 t.
Proof.
  intros H. induction t as [|[i r] t IH]; simpl; [reflexivity|].
  rewrite H, IH. reflexivity.
Qed.

Lemma mask_rows_true (m : listing -> bool) (t : table) :
  (forall i r, In (i, r) t -> m r = true) -> mask_rows m t = t.
Proof.
  induction t as [|[i r] t IH]; simpl; intros H; [reflexivity|].
  rewrite (H i r (or_introl eq_refl)), IH; [reflexivity|].
  intros j s Hin. exact (H j s (or_intror Hin)).
Qed.

Lemma filtered_df_mask (c : criteria) (df : table) :
  filtered_df c df = mask_rows (row_mask c) df.
Proof.
  unfold filtered_df, row_mask.
  destruct (neighborhoods c) as [|n ns], (room_types c) as [|q qs],
    (superhost_filter c); rewrite ?mask_rows_mask_rows;
    apply mask_rows_ext; intros r; cbn -[isin price_mask eq_true];
    repeat match goal with
    | |- context [isin ?a ?b] => destruct (isin a b)
    | |- context [price_mask ?a ?b] => destruct (price_mask a b)
    | |- context [eq_true ?a] => destruct (eq_true a)
    end; reflexivity.
Qed.

Lemma isin_In (ns : list string) (s : string) :
  isin ns s = true <-> In s ns.
Proof.
  unfold isin. rewrite existsb_exists. split.
  - intros [x [Hx Heq]]. apply String.eqb_eq in Heq. subst. exact Hx.
  - intros Hin. exists s. split; [exact Hin | apply String.eqb_refl].
Qed.

Lemma eq_true_iff (h : cell) : eq_true h = true <-> h = HBool true.
Proof.
  destruct h as [[|]| |]; simpl; split; intros H; try congruence.
Qed.

Lemma row_mask_satisfies (c : criteria) (r : listing) :
  row_mask c r = true -> satisfies c r.
Proof.
  unfold row_mask, satisfies, price_mask.
  intros H. repeat rewrite andb_true_iff in H.
  destruct H as [[[Hn Hr] [Hlo Hhi]] Hs].
  apply Qle_bool_iff in Hlo, Hhi.
  repeat split; try assumption.
  - destruct (neighborhoods c) as [|n ns]; [left; reflexivity|].
    right. apply isin_In. exact Hn.
  - destruct (room_types c) as [|q qs]; [left; reflexivity|].
    right. apply isin_In. exact Hr.
  - intros Hf. rewrite Hf in Hs. apply eq_true_iff. exact Hs.
Qed.

(** C1: every row of [filtered_df] is a row of [df] (with its label), and
    it satisfies every active predicate. *)
Theorem filtered_rows_subset_and_satisfy (c : criteria) (df : table) :
  (forall x, In x (filtered_df c df) -> In x df) /\
  (forall i r, In (i, r) (filtered_df c df) -> satisfies c r).
Proof.
  rewrite filtered_df_mask. split.
  - intros [i r] Hin. apply mask_rows_In in Hin. apply Hin.
  - intros i r Hin. apply mask_rows_In in Hin. apply row_mask_satisfies, Hin.
Qed.

(** C4: filtering is idempotent. *)
Theorem filtered_df_idempotent (c : criteria) (df : table) :
  filtered_df c (filtered_df c df) = filtered_df c df.
Proof.
  rewrite !filtered_df_mask, mask_rows_mask_rows.
  apply mask_rows_ext. intros r. apply andb_diag.
Qed.

(** C5: [filtered_df] keeps the rows of [df] in their relative order (it is
    a sublist of [df]). *)
Theorem filtered_df_order_preserved (c : criteria) (df : table) :
  sublist (filtered_df c df) df.
Proof.
  rewrite filtered_df_mask. apply mask_rows_sublist.
Qed.

(** C10: with the superhost flag set, a row is kept iff it passes the other
    criteria and its [host_is_superhost] is the boolean [True]; a missing
    (NaN) value is dropped exactly like [False]. *)
Theorem superhost_only_true_kept (c : criteria) (df : table) :
  superhost_filter c = true ->
  (forall i r, In (i, r) (filtered_df c df) <->
     In (i, r) (filtered_df (without_superhost c) df) /\
     host_is_superhost r = HBool true) /\
  (forall i r, In (i, r) df -> host_is_superhost r = HNaN ->
     ~ In (i, r) (filtered_df c df)).
Proof.
  intros Hs. rewrite !filtered_df_mask.
  assert (Hm : forall r, row_mask c r =
    row_mask (without_superhost c) r && eq_true (host_is_superhost r)).
  { intros r. unfold row_mask. simpl. rewrite Hs, andb_true_r. reflexivity. }
  split.
  - intros i r. rewrite !mask_rows_In, Hm, andb_true_iff, eq_true_iff. tauto.
  - intros i r _ Hnan Hin. apply mask_rows_In in Hin as [_ Hin].
    rewrite Hm, Hnan in Hin. simpl in Hin. rewrite andb_false_r in Hin.
    discriminate.
Qed.

Lemma price_max_ge (t : table) (p : Q) i r :
  price_max t = Some p -> In (i, r) t -> price r <= p.
Proof.
  revert p. induction t as [|[j s] t IH]; simpl; intros p Hp Hin; [contradiction|].
  destruct (price_max t) as [p'|] eqn:Ht; inversion Hp; subst; clear Hp.
  - unfold qmax. destruct (Qle_bool (price s) p') eqn:Hle.
    + apply Qle_bool_iff in Hle. destruct Hin as [Heq|Hin].
      * inversion Heq; subst; exact Hle.
      * exact (IH p' eq_refl Hin).
    + assert (p' <= price s).
      { apply Qlt_le_weak, Qnot_le_lt. intros H. apply Qle_bool_iff in H. congruence. }
      destruct Hin as [Heq|Hin].
      * inversion Heq; subst; apply Qle_refl.
      * eapply Qle_trans; [exact (IH p' eq_refl Hin)|assumption].
  - destruct Hin as [Heq|Hin].
    + inversion Heq; subst; apply Qle_refl.
    + destruct t as [|[k u] t]; [contradiction|].
      simpl in Ht. destruct (price_max t); discriminate.
Qed.

Lemma mask_rows_ext_in (m1 m2 : listing -> bool) (t : table) :
  (forall i r, In (i, r) t -> m1 r = m2 r) -> mask_rows m1 t = mask_rows m2 t.
Proof.
  induction t as [|[i r] t IH]; simpl; intros H; [reflexivity|].
  rewrite (H i r (or_introl eq_refl)), IH; [reflexivity|].
  intros j s Hin. exact (H j s (or_intror Hin)).
Qed.

(** C2 (a slip in the code): the slider's upper bound is
    [int(df['price'].max())], which truncates. For a table whose only
    listing is priced 600.5 the slider spans 0 to 600, and its widest range
    drops that listing: the filter returns an empty table. *)
Theorem full_slider_range_drops_max_row :
  slider_bounds fractional_df = Some (0%Z, 600%Z) /\
  filtered_df (slider_range 0 600) fractional_df = [].
Proof. split; vm_compute; reflexivity. Qed.

Lemma insert_key_In (k x : string) (ks : list string) :
  In x (insert_key k ks) -> x = k \/ In x ks.
Proof.
  induction ks as [|k' ks IH]; simpl; [intros [H|[]]; auto|].
  destruct (String.compare k k'); simpl.
  - auto.
  - intros [H|H]; auto.
  - intros [H|H]; auto. destruct (IH H); auto.
Qed.

Lemma group_keys_In (key : listing -> string) (t : table) (k : string) :
  In k (group_keys key t) -> exists i r, In (i, r) t /\ key r = k.
Proof.
  induction t as [|[i r] t IH]; simpl; [contradiction|].
  intros H. apply insert_key_In in H as [H|H].
  - exists i, r. auto.
  - destruct (IH H) as [j [s [Hin Hk]]]. exists j, s. auto.
Qed.

Lemma dropna_nil_iff (xs : list (option Q)) :
  dropna xs = [] <-> Forall (fun x => x = None) xs.
Proof.
  induction xs as [|[x|] xs IH]; simpl.
  - split; constructor.
  - split; [discriminate|]. intros H. inversion H. discriminate.
  - rewrite IH. split; [intros H; constructor; auto|intros H; inversion H; auto].
Qed.

Lemma mean_None_iff (xs : list (option Q)) :
  mean xs = None <-> Forall (fun x => x = None) xs.
Proof.
  rewrite <- dropna_nil_iff. unfold mean.
  destruct (dropna xs); split; congruence.
Qed.

(** A group built from its keys is never empty. *)
Lemma group_rows_nonempty (key : listing -> string) (t : table) (k : string) :
  In k (group_keys key t) -> exists i r, In (i, r) (group_rows key k t).
Proof.
  intros Hk. destruct (group_keys_In key t k Hk) as [i [r [Hin Heq]]].
  exists i, r. unfold group_rows. apply mask_rows_In. split; [exact Hin|].
  apply String.eqb_eq. exact Heq.
Qed.

(** A column with no missing value has a defined mean in every group. *)
Lemma groupby_mean_defined (key : listing -> string) (col : listing -> option Q)
    (t : table) kv :
  (forall r, col r <> None) ->
  In kv (groupby_mean key col t) -> snd kv <> None.
Proof.
  intros Hcol Hin. unfold groupby_mean in Hin. apply in_map_iff in Hin.
  destruct Hin as [k [Hkv Hk]]. subst kv. simpl.
  destruct (group_rows_nonempty key t k Hk) as [i [r Hr]].
  intros Hnone. apply mean_None_iff in Hnone; rewrite List.Forall_forall in Hnone.
  apply (Hcol r), (Hnone (col r)). apply in_map_iff. exists (i, r). auto.
Qed.

Lemma Sorted_firstn {A} (R : A -> A -> Prop) (k : nat) (l : list A) :
  Sorted R l -> Sorted R (firstn k l).
Proof.
  revert l. induction k as [|k IH]; intros l Hl; simpl; [constructor|].
  destruct l as [|a l]; [constructor|].
  apply Sorted_inv in Hl as [Hl Hhd]. constructor; [apply IH, Hl|].
  destruct k; simpl; [constructor|]. destruct l as [|b l]; [constructor|].
  simpl. constructor. inversion Hhd; assumption.
Qed.


(** A sort of a NaN-free aggregation has no NaN tail. *)
Lemma sort_values_no_nan (asc : bool) (xs ys : list (string * option Q)) :
  (forall kv, In kv xs -> snd kv <> None) ->
  sort_values asc xs ys ->
  Sorted (fun a b => ord_le asc (snd a) (snd b)) ys.
Proof.
  intros Hdef [Hperm [d [n [Hys [Hn [Hd Hs]]]]]].
  destruct n as [|kv n].
  - rewrite Hys, app_nil_r. exact Hs.
  - exfalso. inversion Hn as [|? ? Hkv _]; subst.
    apply (Hdef kv); [|exact Hkv].
    apply (Permutation_in _ (Permutation_sym Hperm)).
    apply in_or_app. right. left. reflexivity.
Qed.


(** C8 (as the code does it): [avg_reviews] lists every (room type,
    mean reviews per month) pair of the grouping: first the room types with
    a defined mean in ascending order, then those whose mean is NaN, which
    are exactly the room types whose [reviews_per_month] values are all
    missing. *)
Theorem avg_reviews_ascending_nan_last (t : table) (ys : list (string * option Q)) :
  avg_reviews t ys ->
  Permutation (groupby_mean room_type reviews_per_month t) ys /\
  exists d n, ys = d ++ n /\
    Sorted (fun a b => ord_le true (snd a) (snd b)) d /\
    (forall kv, In kv d -> snd kv <> None) /\
    (forall kv, In kv n -> snd kv = None /\
       forall i r, In (i, r) (group_rows room_type (fst kv) t) ->
         reviews_per_month r = None).
Proof.
  intros [Hperm [d [n [Hys [Hn [Hd Hs]]]]]].
  split; [exact Hperm|]. exists d, n. split; [exact Hys|]. split; [exact Hs|].
  split.
  - intros kv Hin. rewrite List.Forall_forall in Hd. exact (Hd kv Hin).
  - intros kv Hin. rewrite List.Forall_forall in Hn. split; [exact (Hn kv Hin)|].
    assert (Hg : In kv (groupby_mean room_type reviews_per_month t)).
    { apply (Permutation_in _ (Permutation_sym Hperm)). rewrite Hys.
      apply in_or_app. right. exact Hin. }
    unfold groupby_mean in Hg. apply in_map_iff in Hg as [k [Hkv _]].
    subst kv. simpl in *. intros i r Hir.
    pose proof (Hn _ Hin) as Hnone. simpl in Hnone.
    apply mean_None_iff in Hnone. rewrite List.Forall_forall in Hnone.
    apply Hnone, in_map_iff. exists (i, r). auto.
Qed.

(** C6: when the criteria leave no row, every KPI and aggregation is still
    computed (all are total functions here); the KPI means and every
    per-group mean are NaN ([None]), never 0, and the grouped series are
    empty. *)
Theorem empty_filter_aggregates_missing (c : criteria) (df : table) :
  filtered_df c df = [] ->
  kpi_listings (filtered_df c df) = 0%nat /\
  kpi_avg_price (filtered_df c df) = None /\
  kpi_avg_rating (filtered_df c df) = None /\
  (forall ys, top_neigh (filtered_df c df) ys -> ys = []) /\
  (forall ys, top_avail (filtered_df c df) ys -> ys = []) /\
  (forall ys, avg_reviews (filtered_df c df) ys -> ys = []) /\
  (forall (key : listing -> string) (col : listing -> option Q) k,
     mean (map (fun ir => col (snd ir)) (group_rows key k (filtered_df c df))) = None).
Proof.
  intros Hempty. rewrite Hempty.
  split; [reflexivity|]. split; [reflexivity|]. split; [reflexivity|].
  split; [intros ys [Hp _]; exact (Permutation_nil Hp)|].
  split; [intros ys [Hp _]; exact (Permutation_nil Hp)|].
  split; [intros ys [Hp _]; exact (Permutation_nil Hp)|].
  intros key col k. reflexivity.
Qed.

Section RenderFrame.
Variable l_df : nat.
Variable df : table.

Lemma m_bind_Some {A B} (m : M A) (k : A -> M B) h x h' :
  m h = (Some x, h') -> m_bind m k h = k x h'.
Proof. unfold m_bind. intros ->. reflexivity. Qed.

Lemma alloc_frame_inv (h : heap) (l : nat) (t t' : table) :
  render_inv l_df df h l t ->
  alloc_frame t' h = (Some (next_loc h), {| next_loc := S (next_loc h);
                                         frames := <[next_loc h := t']> (frames h) |}) /\
  render_inv l_df df {| next_loc := S (next_loc h);
                frames := <[next_loc h := t']> (frames h) |} (next_loc h) t'.
Proof.
  intros [Hwf [Hdf Hl]]. split; [reflexivity|]. split; [|split].
  - intros l' u Hl'. simpl in *. destruct (decide (l' = next_loc h)) as [->|Hne].
    + lia.
    + rewrite lookup_insert_ne in Hl' by congruence. specialize (Hwf _ _ Hl'). lia.
  - simpl. rewrite lookup_insert_ne; [exact Hdf|].
    specialize (Hwf _ _ Hdf). lia.
  - simpl. apply lookup_insert_eq.
Qed.

Lemma mask_frame_inv (m : listing -> bool) (h : heap) (l : nat) (t : table) :
  render_inv l_df df h l t ->
  exists h', mask_frame m l h = (Some (next_loc h), h') /\
             render_inv l_df df h' (next_loc h) (mask_rows m t).
Proof.
  intros Hinv. destruct (alloc_frame_inv h l t (mask_rows m t) Hinv) as [Ha Hinv'].
  eexists. split; [|exact Hinv'].
  unfold mask_frame. erewrite m_bind_Some; [exact Ha|].
  unfold read_frame. destruct Hinv as [_ [_ Hl]]. rewrite Hl. reflexivity.
Qed.

Lemma copy_frame_inv (h : heap) (l : nat) (t : table) :
  render_inv l_df df h l t ->
  exists h', copy_frame l h = (Some (next_loc h), h') /\
             render_inv l_df df h' (next_loc h) t.
Proof.
  intros Hinv. destruct (alloc_frame_inv h l t t Hinv) as [Ha Hinv'].
  eexists. split; [|exact Hinv'].
  unfold copy_frame. erewrite m_bind_Some; [exact Ha|].
  unfold read_frame. destruct Hinv as [_ [_ Hl]]. rewrite Hl. reflexivity.
Qed.

(** One optional mask step: either the frame is kept or a masked copy is
    allocated; in both cases the invariant carries over. *)
Lemma opt_mask_inv (b : bool) (m : listing -> bool) (h : heap) (l : nat) (t : table) :
  render_inv l_df df h l t ->
  exists l' h', (if b then mask_frame m l else m_ret l) h = (Some l', h') /\
                render_inv l_df df h' l' (if b then mask_rows m t else t).
Proof.
  intros Hinv. destruct b.
  - destruct (mask_frame_inv m h l t Hinv) as [h' [Hm Hi]]. eauto.
  - exists l, h. split; [reflexivity|exact Hinv].
Qed.

(** The filter's frames (lines 58-65) end at a new frame holding
    [filtered_df c df], and the invariant carries over. *)
Lemma filter_frames_inv (c : criteria) (h : heap) :
  render_inv l_df df h l_df df ->
  exists l h', filter_frames c l_df h = (Some l, h') /\
               render_inv l_df df h' l (filtered_df c df).
Proof.
  intros I0.
  destruct (copy_frame_inv h l_df df I0) as [h0 [E0 I1]].
  unfold filter_frames. rewrite (m_bind_Some _ _ _ _ _ E0).
  assert (N : exists l1 h1,
    (match neighborhoods c with
     | [] => m_ret (next_loc h)
     | ns => mask_frame (fun r => isin ns (neighbourhood_cleansed r)) (next_loc h)
     end) h0 = (Some l1, h1) /\
    render_inv l_df df h1 l1
      (match neighborhoods c with
       | [] => df
       | ns => mask_rows (fun r => isin ns (neighbourhood_cleansed r)) df
       end)).
  { destruct (neighborhoods c) as [|n ns].
    - exists (next_loc h), h0. split; [reflexivity|exact I1].
    - destruct (mask_frame_inv (fun r => isin (n :: ns) (neighbourhood_cleansed r))
                  h0 (next_loc h) df I1) as [h1 [E I]].
      eauto. }
  destruct N as [l1 [h1 [E1 I2]]]. rewrite (m_bind_Some _ _ _ _ _ E1).
  set (t1 := match neighborhoods c with
             | [] => df
             | ns => mask_rows (fun r => isin ns (neighbourhood_cleansed r)) df
             end) in *.
  assert (R : exists l2 h2,
    (match room_types c with
     | [] => m_ret l1
     | rs => mask_frame (fun r => isin rs (room_type r)) l1
     end) h1 = (Some l2, h2) /\
    render_inv l_df df h2 l2
      (match room_types c with
       | [] => t1
       | rs => mask_rows (fun r => isin rs (room_type r)) t1
       end)).
  { destruct (room_types c) as [|q qs].
    - exists l1, h1. split; [reflexivity|exact I2].
    - destruct (mask_frame_inv (fun r => isin (q :: qs) (room_type r))
                  h1 l1 t1 I2) as [h2 [E I]].
      eauto. }
  destruct R as [l2 [h2 [E2 I3]]]. rewrite (m_bind_Some _ _ _ _ _ E2).
  set (t2 := match room_types c with
             | [] => t1
             | rs => mask_rows (fun r => isin rs (room_type r)) t1
             end) in *.
  destruct (mask_frame_inv (price_mask c) h2 l2 t2 I3) as [h3 [E3 I4]].
  rewrite (m_bind_Some _ _ _ _ _ E3).
  destruct (opt_mask_inv (superhost_filter c)
              (fun r => eq_true (host_is_superhost r)) h3 (next_loc h2)
              (mask_rows (price_mask c) t2) I4) as [l4 [h4 [E4 I5]]].
  exists l4, h4. split; [exact E4|]. exact I5.
Qed.
End RenderFrame.

(** The figures only read: the store is left as it was. *)
Lemma charts_heap (e : env) (f : table) (h : heap) : snd (charts e f h) = h.
Proof.
  unfold charts, m_bind, plot, m_ret.
  repeat match goal with
         | |- context [plot_fails e ?ch] => destruct (plot_fails e ch)
         end; reflexivity.
Qed.

Lemma charts_out (e : env) (f : table) (h : heap) (out : render_output) :
  fst (charts e f h) = Some out -> out_filtered out = f.
Proof.
  unfold charts, m_bind, plot, m_ret.
  repeat match goal with
         | |- context [plot_fails e ?ch] => destruct (plot_fails e ch)
         end; simpl; intros H; try discriminate.
  injection H as <-. reflexivity.
Qed.

Lemma charts_ok (e : env) (f : table) (h : heap) :
  (forall ch, plot_fails e ch = false) -> exists out, fst (charts e f h) = Some out.
Proof.
  intros Hok. unfold charts, m_bind, plot, m_ret. rewrite !Hok. eexists. reflexivity.
Qed.

(** C9: a render cycle from a well-formed store, whether it ends normally
    or by an exception (the slider on an empty table, a figure plotly
    refuses), leaves the frame [df] at its location unchanged and keeps the
    store well formed; when it ends normally its filtered table is
    [filtered_df c df], and it does end normally when [df] has a price and
    no figure raises. *)
Theorem render_preserves_df (e : env) (c : criteria) (l_df : nat) (df : table) (h : heap) :
  heap_wf h -> frames h !! l_df = Some df ->
  frames (snd (render e c l_df h)) !! l_df = Some df /\
  heap_wf (snd (render e c l_df h)) /\
  (forall out, fst (render e c l_df h) = Some out -> out_filtered out = filtered_df c df) /\
  (slider_bounds df <> None -> (forall ch, plot_fails e ch = false) ->
     exists out, fst (render e c l_df h) = Some out).
Proof.
  intros Hwf Hdf.
  assert (E0 : read_frame l_df h = (Some df, h)) by (unfold read_frame; rewrite Hdf; reflexivity).
  unfold render. rewrite (m_bind_Some _ _ _ _ _ E0).
  unfold slider_step. destruct (slider_bounds df) as [b|] eqn:Hb.
  2:{ cbn. split; [exact Hdf|]. split; [exact Hwf|].
      split; [discriminate|]. intros Hne. congruence. }
  rewrite (m_bind_Some _ _ _ _ _ (eq_refl : m_ret b h = (Some b, h))).
  assert (I0 : render_inv l_df df h l_df df) by (repeat split; assumption).
  destruct (filter_frames_inv l_df df c h I0) as (l & h' & E1 & Hwf' & Hdf' & Hl).
  rewrite (m_bind_Some _ _ _ _ _ E1).
  assert (E2 : read_frame l h' = (Some (filtered_df c df), h'))
    by (unfold read_frame; rewrite Hl; reflexivity).
  rewrite (m_bind_Some _ _ _ _ _ E2), charts_heap.
  split; [exact Hdf'|]. split; [exact Hwf'|]. split.
  - apply charts_out.
  - intros _ Hok. apply charts_ok, Hok.
Qed.

(** ** Facts about the CSV writer and tokenizer *)

Module CsvFacts.
Import Csv.


























End CsvFacts.



(** ** Witnesses and counterexamples *)

Lemma superhost_only_true_kept_witness :
  superhost_filter superhost_criteria = true /\
  (forall i r, In (i, r) (filtered_df superhost_criteria sample_df) <->
     In (i, r) (filtered_df (without_superhost superhost_criteria) sample_df) /\
     host_is_superhost r = HBool true) /\
  (forall i r, In (i, r) sample_df -> host_is_superhost r = HNaN ->
     ~ In (i, r) (filtered_df superhost_criteria sample_df)).
Proof.
  split; [reflexivity|]. apply superhost_only_true_kept. reflexivity.
Defined.

Lemma sample_prices_nonneg :
  forall i r, In (i, r) sample_df -> 0 <= price r.
Proof.
  intros i r Hin. simpl in Hin.
  destruct Hin as [H|[H|[H|[H|[]]]]]; inversion H; subst;
    unfold Qle; simpl; lia.
Qed.





Lemma empty_filter_aggregates_missing_witness :
  filtered_df empty_criteria sample_df = [] /\
  kpi_listings (filtered_df empty_criteria sample_df) = 0%nat /\
  kpi_avg_price (filtered_df empty_criteria sample_df) = None /\
  kpi_avg_rating (filtered_df empty_criteria sample_df) = None /\
  (forall ys, top_neigh (filtered_df empty_criteria sample_df) ys -> ys = []) /\
  (forall ys, top_avail (filtered_df empty_criteria sample_df) ys -> ys = []) /\
  (forall ys, avg_reviews (filtered_df empty_criteria sample_df) ys -> ys = []) /\
  (forall (key : listing -> string) (col : listing -> option Q) k,
     mean (map (fun ir => col (snd ir))
       (group_rows key k (filtered_df empty_criteria sample_df))) = None).
Proof.
  assert (H : filtered_df empty_criteria sample_df = []) by (vm_compute; reflexivity).
  split; [exact H|]. apply empty_filter_aggregates_missing. exact H.
Defined.

(** Mean reviews per month of [sample_df]: Entire home/apt NaN, Private
    room 3, Shared room 2; the reversed grouping is a valid ascending
    sort. *)
Lemma sample_avg_reviews :
  avg_reviews sample_df (rev (groupby_mean room_type reviews_per_month sample_df)).
Proof.
  split; [apply Permutation_rev|].
  exists (firstn 2 (rev (groupby_mean room_type reviews_per_month sample_df))),
         (skipn 2 (rev (groupby_mean room_type reviews_per_month sample_df))).
  vm_compute. split; [reflexivity|]. split; [repeat constructor|]. split.
  - repeat constructor; discriminate.
  - repeat constructor. discriminate.
Qed.

Lemma avg_reviews_ascending_nan_last_witness :
  avg_reviews sample_df (rev (groupby_mean room_type reviews_per_month sample_df)) /\
  Permutation (groupby_mean room_type reviews_per_month sample_df)
    (rev (groupby_mean room_type reviews_per_month sample_df)) /\
  exists d n, rev (groupby_mean room_type reviews_per_month sample_df) = d ++ n /\
    Sorted (fun a b => ord_le true (snd a) (snd b)) d /\
    (forall kv, In kv d -> snd kv <> None) /\
    (forall kv, In kv n -> snd kv = None /\
       forall i r, In (i, r) (group_rows room_type (fst kv) sample_df) ->
         reviews_per_month r = None).
Proof.
  split; [exact sample_avg_reviews|]. apply avg_reviews_ascending_nan_last.
  exact sample_avg_reviews.
Defined.

(** A room type whose listings all lack [reviews_per_month] has a NaN mean,
    placed last: the sequence is not ascending at that point. *)
Lemma avg_reviews_nan_breaks_ascending :
  ~ (forall (t : table) ys, avg_reviews t ys ->
       Sorted (fun a b => ord_le true (snd a) (snd b)) ys).
Proof.
  intros H. specialize (H sample_df _ sample_avg_reviews).
  vm_compute in H. apply Sorted_inv in H as [H _].
  apply Sorted_inv in H as [_ Hhd]. inversion Hhd as [|? ? Hle]. exact Hle.
Qed.

Lemma sample_heap_wf : heap_wf sample_heap.
Proof.
  intros l t Hl. simpl in *. destruct (decide (l = 0%nat)) as [->|Hne]; [lia|].
  rewrite lookup_singleton_ne in Hl by congruence. discriminate.
Qed.

(** With the price range 600-700 no listing is left; the first figure,
    a line chart with no data, raises, and [df] is unchanged. *)
Lemma render_preserves_df_witness :
  heap_wf sample_heap /\ frames sample_heap !! 0%nat = Some sample_df /\
  fst (render empty_line_fails empty_criteria 0 sample_heap) = None /\
  (frames (snd (render empty_line_fails empty_criteria 0 sample_heap)) !! 0%nat = Some sample_df /\
   heap_wf (snd (render empty_line_fails empty_criteria 0 sample_heap)) /\
   (forall out, fst (render empty_line_fails empty_criteria 0 sample_heap) = Some out ->
      out_filtered out = filtered_df empty_criteria sample_df) /\
   (slider_bounds sample_df <> None -> (forall ch, plot_fails empty_line_fails ch = false) ->
      exists out, fst (render empty_line_fails empty_criteria 0 sample_heap) = Some out)).
Proof.
  split; [exact sample_heap_wf|]. split; [reflexivity|]. split; [vm_compute; reflexivity|].
  apply render_preserves_df; [exact sample_heap_wf|reflexivity].
Defined.




(** * Further properties of the code *)

(** ** Facts about the string order *)

Lemma str_lt_trans (a b c : string) : str_lt a b -> str_lt b c -> str_lt a c.
Proof.
  unfold str_lt. rewrite !OrderedTypeEx.String_as_OT.cmp_lt.
  apply OrderedTypeEx.String_as_OT.lt_trans.
Qed.

Lemma str_compare_refl (a : string) : String.compare a a = Eq.
Proof. apply OrderedTypeEx.String_as_OT.cmp_eq. reflexivity. Qed.

Lemma str_compare_Gt (a b : string) : String.compare a b = Gt -> str_lt b a.
Proof.
  intros H. unfold str_lt. rewrite String.compare_antisym, H. reflexivity.
Qed.

Lemma str_lt_irrefl (a : string) : ~ str_lt a a.
Proof. unfold str_lt. rewrite str_compare_refl. discriminate. Qed.

Lemma str_le_iff (a b : string) : str_le a b <-> a = b \/ str_lt a b.
Proof.
  unfold str_le, str_lt. destruct (String.compare a b) eqn:E; split; intros H.
  - left. apply OrderedTypeEx.String_as_OT.cmp_eq. exact E.
  - discriminate.
  - right. reflexivity.
  - discriminate.
  - congruence.
  - destruct H as [->|H]; [rewrite str_compare_refl in E|]; discriminate.
Qed.

Lemma str_le_trans (a b c : string) : str_le a b -> str_le b c -> str_le a c.
Proof.
  rewrite !str_le_iff. intros [->|Hab] [->|Hbc]; auto.
  right. exact (str_lt_trans a b c Hab Hbc).
Qed.

(** ** Group keys and multiselect options *)

Lemma insert_key_In_iff (k x : string) (ks : list string) :
  In x (insert_key k ks) <-> x = k \/ In x ks.
Proof.
  split; [apply insert_key_In|].
  induction ks as [|k' ks IH]; simpl; [intros [H|[]]; auto|].
  destruct (String.compare k k') eqn:E; simpl.
  - apply OrderedTypeEx.String_as_OT.cmp_eq in E. subst. intros [H|H]; auto.
  - intros [H|[H|H]]; auto.
  - intros [H|[H|H]]; auto.
Qed.

Lemma insert_key_sorted (k : string) (ks : list string) :
  StronglySorted str_lt ks -> StronglySorted str_lt (insert_key k ks).
Proof.
  induction ks as [|k' ks IH]; simpl; intros Hs; [repeat constructor|].
  apply StronglySorted_inv in Hs as [Hs Hall].
  destruct (String.compare k k') eqn:E.
  - constructor; assumption.
  - constructor; [constructor; assumption|]. constructor; [exact E|].
    rewrite List.Forall_forall in *. intros x Hx. exact (str_lt_trans _ _ _ E (Hall x Hx)).
  - constructor; [apply IH, Hs|]. rewrite List.Forall_forall in *.
    intros x Hx. apply insert_key_In in Hx as [->|Hx].
    + apply str_compare_Gt. exact E.
    + exact (Hall x Hx).
Qed.

Lemma StronglySorted_lt_NoDup (xs : list string) :
  StronglySorted str_lt xs -> List.NoDup xs.
Proof.
  induction xs as [|x xs IH]; intros Hs; [constructor|].
  apply StronglySorted_inv in Hs as [Hs Hall]. constructor; [|exact (IH Hs)].
  intros Hin. rewrite List.Forall_forall in Hall.
  exact (str_lt_irrefl x (Hall x Hin)).
Qed.

Lemma group_keys_sorted (key : listing -> string) (t : table) :
  StronglySorted str_lt (group_keys key t).
Proof.
  induction t as [|[i r] t IH]; simpl; [constructor|]. apply insert_key_sorted, IH.
Qed.

Lemma group_keys_In_iff (key : listing -> string) (t : table) (k : string) :
  In k (group_keys key t) <-> exists i r, In (i, r) t /\ key r = k.
Proof.
  split; [apply group_keys_In|].
  induction t as [|[j s] t IH]; simpl; [intros (i & r & [] & _)|].
  intros (i & r & [Heq|Hin] & Hk); apply insert_key_In_iff.
  - inversion Heq; subst. left. reflexivity.
  - right. apply IH. eauto.
Qed.

Lemma unique_rev_In (seen xs : list string) (x : string) :
  In x (unique_rev seen xs) <-> In x seen \/ In x xs.
Proof.
  revert seen. induction xs as [|y xs IH]; intros seen; simpl; [tauto|].
  destruct (existsb (String.eqb y) seen) eqn:E; rewrite IH.
  - apply existsb_exists in E as [z [Hz Hyz]]. apply String.eqb_eq in Hyz. subst z.
    split; [tauto|]. intros [H|[H|H]]; [auto|subst; auto|auto].
  - simpl. tauto.
Qed.

Lemma unique_rev_NoDup (seen xs : list string) :
  List.NoDup seen -> List.NoDup (unique_rev seen xs).
Proof.
  revert seen. induction xs as [|y xs IH]; intros seen Hs; simpl; [exact Hs|].
  destruct (existsb (String.eqb y) seen) eqn:E; apply IH; [exact Hs|].
  constructor; [|exact Hs]. intros Hin.
  assert (existsb (String.eqb y) seen = true)
    by (apply existsb_exists; exists y; split; [exact Hin|apply String.eqb_refl]).
  congruence.
Qed.

Lemma sorted_insert_perm (x : string) (ys : list string) :
  Permutation (sorted_insert x ys) (x :: ys).
Proof.
  induction ys as [|y ys IH]; simpl; [reflexivity|].
  destruct (String.compare x y); [| reflexivity |];
    (eapply perm_trans; [apply perm_skip, IH|apply perm_swap]).
Qed.

Lemma sorted_insert_sorted (x : string) (ys : list string) :
  StronglySorted str_le ys -> StronglySorted str_le (sorted_insert x ys).
Proof.
  induction ys as [|y ys IH]; simpl; intros Hs; [repeat constructor|].
  apply StronglySorted_inv in Hs as [Hs Hall]. rewrite List.Forall_forall in Hall.
  destruct (String.compare x y) eqn:E.
  - constructor; [apply IH, Hs|]. apply List.Forall_forall. intros z Hz.
    apply (Permutation_in _ (sorted_insert_perm x ys)) in Hz as [<-|Hz].
    + apply OrderedTypeEx.String_as_OT.cmp_eq in E. subst. unfold str_le.
      rewrite str_compare_refl. discriminate.
    + exact (Hall z Hz).
  - constructor; [constructor; [exact Hs|apply List.Forall_forall; exact Hall]|].
    constructor; [unfold str_le; congruence|]. apply List.Forall_forall.
    intros z Hz. apply (str_le_trans _ y); [unfold str_le; congruence|exact (Hall z Hz)].
  - constructor; [apply IH, Hs|]. apply List.Forall_forall. intros z Hz.
    apply (Permutation_in _ (sorted_insert_perm x ys)) in Hz as [<-|Hz].
    + apply str_le_iff. right. apply str_compare_Gt. exact E.
    + exact (Hall z Hz).
Qed.

Lemma py_sorted_perm (xs : list string) : Permutation (py_sorted xs) xs.
Proof.
  unfold py_sorted. eapply perm_trans; [|apply Permutation_sym, Permutation_rev].
  induction (rev xs) as [|x l IH]; simpl; [reflexivity|].
  eapply perm_trans; [apply sorted_insert_perm|apply perm_skip, IH].
Qed.

Lemma py_sorted_sorted (xs : list string) : StronglySorted str_le (py_sorted xs).
Proof.
  unfold py_sorted. induction (rev xs) as [|x l IH]; simpl; [constructor|].
  apply sorted_insert_sorted, IH.
Qed.

Lemma StronglySorted_le_lt (xs : list string) :
  List.NoDup xs -> StronglySorted str_le xs -> StronglySorted str_lt xs.
Proof.
  induction xs as [|x xs IH]; intros Hnd Hs; [constructor|].
  apply List.NoDup_cons_iff in Hnd as [Hx Hnd].
  apply StronglySorted_inv in Hs as [Hs Hall]. constructor; [exact (IH Hnd Hs)|].
  rewrite List.Forall_forall in *. intros y Hy.
  destruct (proj1 (str_le_iff x y) (Hall y Hy)) as [->|H]; [contradiction|exact H].
Qed.

(** ** Filter engine: composition, empty range, monotonicity *)

Lemma mask_rows_app (m : listing -> bool) (t1 t2 : table) :
  mask_rows m (t1 ++ t2) = mask_rows m t1 ++ mask_rows m t2.
Proof.
  induction t1 as [|[i r] t1 IH]; simpl; [reflexivity|].
  destruct (m r); simpl; rewrite IH; reflexivity.
Qed.

(** The filter decides row by row: filtering a concatenation is the
    concatenation of the filtered parts. *)
Theorem filtered_df_app (c : criteria) (t1 t2 : table) :
  filtered_df c (t1 ++ t2) = filtered_df c t1 ++ filtered_df c t2.
Proof. rewrite !filtered_df_mask. apply mask_rows_app. Qed.

Lemma mask_rows_false (m : listing -> bool) (t : table) :
  (forall i r, In (i, r) t -> m r = false) -> mask_rows m t = [].
Proof.
  induction t as [|[i r] t IH]; simpl; intros H; [reflexivity|].
  rewrite (H i r (or_introl eq_refl)). apply IH. intros j s Hin. exact (H j s (or_intror Hin)).
Qed.

(** A slider range with its lower end above its upper end selects no row. *)
Theorem filtered_df_inverted_range (c : criteria) (df : table) :
  (max_price c < min_price c)%Z -> filtered_df c df = [].
Proof.
  intros Hlt. rewrite filtered_df_mask. apply mask_rows_false. intros i r _.
  destruct (row_mask c r) eqn:E; [|reflexivity]. exfalso.
  destruct (row_mask_satisfies c r E) as (_ & _ & [Hlo Hhi] & _).
  assert (H : inject_Z (min_price c) <= inject_Z (max_price c)) by (eapply Qle_trans; eassumption).
  rewrite <- Zle_Qle in H. lia.
Qed.

Lemma mask_rows_sublist_mono (m1 m2 : listing -> bool) (t : table) :
  (forall r, m1 r = true -> m2 r = true) -> sublist (mask_rows m1 t) (mask_rows m2 t).
Proof.
  intros H. induction t as [|[i r] t IH]; simpl; [constructor|].
  destruct (m1 r) eqn:E1.
  - rewrite (H r E1). apply sublist_skip, IH.
  - destruct (m2 r); [apply sublist_cons|]; exact IH.
Qed.

(** Loosening the criteria (more neighbourhoods or room types, a wider
    price range, the superhost flag cleared) can only add rows: the result
    is a sublist of the looser one. *)
Theorem filtered_df_monotone (c c' : criteria) (df : table) :
  looser c c' -> sublist (filtered_df c df) (filtered_df c' df).
Proof.
  intros (Hn & Hr & Hlo & Hhi & Hs). rewrite !filtered_df_mask.
  apply mask_rows_sublist_mono. intros r Hm.
  pose proof (row_mask_satisfies c r Hm) as (Sn & Sr & [Sl Sh] & Ss).
  unfold row_mask in *. repeat rewrite andb_true_iff in Hm.
  destruct Hm as [[[Hmn Hmr] Hmp] Hms].
  repeat rewrite andb_true_iff. split; [split; [split|]|].
  - destruct Hn as [->|[Hne Hincl]]; [reflexivity|].
    destruct Sn as [Hnil|Hin]; [contradiction|].
    destruct (neighborhoods c') as [|n ns]; [reflexivity|]. apply isin_In, Hincl, Hin.
  - destruct Hr as [->|[Hne Hincl]]; [reflexivity|].
    destruct Sr as [Hnil|Hin]; [contradiction|].
    destruct (room_types c') as [|q qs]; [reflexivity|]. apply isin_In, Hincl, Hin.
  - unfold price_mask. apply andb_true_iff. split; apply Qle_bool_iff.
    + eapply Qle_trans; [|exact Sl]. rewrite <- Zle_Qle. exact Hlo.
    + eapply Qle_trans; [exact Sh|]. rewrite <- Zle_Qle. exact Hhi.
  - destruct (superhost_filter c') eqn:E; [|reflexivity].
    apply eq_true_iff, Ss, Hs. reflexivity.
Qed.

(** The options of a multiselect are the distinct values of the column, in
    strictly ascending order, each occurring in some row. *)
Theorem multiselect_options_spec (key : listing -> string) (df : table) :
  List.NoDup (multiselect_options key df) /\
  StronglySorted str_lt (multiselect_options key df) /\
  (forall s, In s (multiselect_options key df) <-> exists i r, In (i, r) df /\ key r = s).
Proof.
  unfold multiselect_options.
  set (xs := map (fun ir => key (snd ir)) df).
  assert (Hnd : List.NoDup (py_sorted (unique xs))).
  { eapply Permutation_NoDup; [apply Permutation_sym, py_sorted_perm|].
    unfold unique. apply NoDup_rev, unique_rev_NoDup. constructor. }
  split; [exact Hnd|]. split; [apply StronglySorted_le_lt; [exact Hnd|apply py_sorted_sorted]|].
  intros s. split.
  - intros Hin. apply (Permutation_in _ (py_sorted_perm _)) in Hin.
    unfold unique in Hin. rewrite <- in_rev in Hin. apply unique_rev_In in Hin as [[]|Hin].
    apply in_map_iff in Hin as [[i r] [Hk Hin]]. eauto.
  - intros (i & r & Hin & Hk). apply (Permutation_in _ (Permutation_sym (py_sorted_perm _))).
    unfold unique. rewrite <- in_rev. apply unique_rev_In. right.
    apply in_map_iff. exists (i, r). auto.
Qed.

(** Selecting every neighbourhood (or every room type) the sidebar offers
    filters exactly like selecting none. *)
Theorem select_all_options_is_no_filter (c : criteria) (df : table) :
  filtered_df (with_neighborhoods c (multiselect_options neighbourhood_cleansed df)) df =
    filtered_df (with_neighborhoods c []) df /\
  filtered_df (with_room_types c (multiselect_options room_type df)) df =
    filtered_df (with_room_types c []) df.
Proof.
  rewrite !filtered_df_mask. split; apply mask_rows_ext_in; intros i r Hin;
    unfold row_mask; cbn [neighborhoods room_types min_price max_price superhost_filter
                          with_neighborhoods with_room_types].
  - assert (Hk : In (neighbourhood_cleansed r) (multiselect_options neighbourhood_cleansed df))
      by (apply multiselect_options_spec; eauto).
    destruct (multiselect_options neighbourhood_cleansed df) as [|o os]; [reflexivity|].
    apply isin_In in Hk. rewrite Hk. reflexivity.
  - assert (Hk : In (room_type r) (multiselect_options room_type df))
      by (apply multiselect_options_spec; eauto).
    destruct (multiselect_options room_type df) as [|o os]; [reflexivity|].
    apply isin_In in Hk. rewrite Hk, andb_true_r. reflexivity.
Qed.

(** ** Groups partition the table *)

Lemma list_sum_map_plus {A} (f g : A -> nat) (ks : list A) :
  list_sum (map (fun k => f k + g k)%nat ks) = (list_sum (map f ks) + list_sum (map g ks))%nat.
Proof. induction ks as [|k ks IH]; simpl; [reflexivity|]. rewrite IH. lia. Qed.

Lemma indicator_sum_absent (k0 : string) (ks : list string) :
  ~ In k0 ks -> list_sum (map (fun k => if String.eqb k0 k then 1 else 0)%nat ks) = 0%nat.
Proof.
  induction ks as [|k ks IH]; simpl; intros Hn; [reflexivity|].
  destruct (String.eqb k0 k) eqn:E; [apply String.eqb_eq in E; subst; tauto|].
  apply IH. tauto.
Qed.

Lemma indicator_sum_present (k0 : string) (ks : list string) :
  List.NoDup ks -> In k0 ks ->
  list_sum (map (fun k => if String.eqb k0 k then 1 else 0)%nat ks) = 1%nat.
Proof.
  induction ks as [|k ks IH]; simpl; intros Hnd Hin; [contradiction|].
  apply List.NoDup_cons_iff in Hnd as [Hk Hnd].
  destruct (String.eqb k0 k) eqn:E.
  - apply String.eqb_eq in E. subst. rewrite indicator_sum_absent by exact Hk. reflexivity.
  - destruct Hin as [->|Hin]; [rewrite String.eqb_refl in E; discriminate|].
    apply IH; assumption.
Qed.

Lemma group_sizes_sum (key : listing -> string) (ks : list string) (t : table) :
  List.NoDup ks -> (forall i r, In (i, r) t -> In (key r) ks) ->
  list_sum (map (fun k => length (group_rows key k t)) ks) = length t.
Proof.
  intros Hnd. induction t as [|[i r] t IH]; intros Hall.
  - clear Hnd Hall. induction ks as [|k ks IHk]; simpl; [reflexivity|]. exact IHk.
  - unfold group_rows. simpl.
    erewrite map_ext with (g := fun k => ((if String.eqb (key r) k then 1 else 0) +
                                          length (group_rows key k t))%nat).
    + rewrite list_sum_map_plus, indicator_sum_present, IH; [reflexivity| | |].
      * intros j s Hin. exact (Hall j s (or_intror Hin)).
      * exact Hnd.
      * exact (Hall i r (or_introl eq_refl)).
    + intros k. destruct (String.eqb (key r) k); reflexivity.
Qed.

(** [groupby] lists its groups once each, in ascending key order, and every
    row falls in exactly one group: the group sizes add up to the number
    of rows. *)
Theorem groupby_groups_partition (key : listing -> string) (t : table) :
  StronglySorted str_lt (group_keys key t) /\
  list_sum (map (fun k => length (group_rows key k t)) (group_keys key t)) = length t.
Proof.
  split; [apply group_keys_sorted|].
  apply group_sizes_sum.
  - apply StronglySorted_lt_NoDup, group_keys_sorted.
  - intros i r Hin. apply group_keys_In_iff. eauto.
Qed.

(** ** Means stay within the range of their values *)

Lemma qsum_lower (lo : Q) (ys : list Q) :
  (forall y, In y ys -> lo <= y) -> inject_Z (Z.of_nat (length ys)) * lo <= qsum ys.
Proof.
  induction ys as [|y ys IH]; simpl; intros H.
  - change (inject_Z (Z.of_nat 0)) with 0. rewrite Qmult_0_l. apply Qle_refl.
  - rewrite Nat2Z.inj_succ, <- Z.add_1_r, inject_Z_plus.
    assert (lo <= y) by auto. assert (inject_Z (Z.of_nat (length ys)) * lo <= qsum ys) by auto.
    change (inject_Z 1) with 1. lra.
Qed.

Lemma qsum_upper (hi : Q) (ys : list Q) :
  (forall y, In y ys -> y <= hi) -> qsum ys <= inject_Z (Z.of_nat (length ys)) * hi.
Proof.
  induction ys as [|y ys IH]; simpl; intros H.
  - change (inject_Z (Z.of_nat 0)) with 0. rewrite Qmult_0_l. apply Qle_refl.
  - rewrite Nat2Z.inj_succ, <- Z.add_1_r, inject_Z_plus.
    assert (y <= hi) by auto. assert (qsum ys <= inject_Z (Z.of_nat (length ys)) * hi) by auto.
    change (inject_Z 1) with 1. lra.
Qed.

Lemma In_dropna (xs : list (option Q)) (y : Q) : In y (dropna xs) <-> In (Some y) xs.
Proof.
  induction xs as [|[x|] xs IH]; simpl; [tauto| |].
  - rewrite IH. split; intros [H|H]; auto; [left; congruence|left; congruence].
  - rewrite IH. split; [auto|intros [H|H]; [discriminate|auto]].
Qed.

Lemma mean_between (xs : list (option Q)) (lo hi m : Q) :
  mean xs = Some m -> (forall x, In (Some x) xs -> lo <= x <= hi) -> lo <= m <= hi.
Proof.
  unfold mean. intros Hm Hb.
  assert (Hys : forall y, In y (dropna xs) -> lo <= y <= hi)
    by (intros y Hy; apply Hb, In_dropna, Hy).
  destruct (dropna xs) as [|y ys] eqn:E; [discriminate|].
  injection Hm as <-.
  set (n := inject_Z (Z.of_nat (length (y :: ys)))).
  assert (Hn : 0 < n).
  { unfold n. rewrite <- (Zlt_Qlt 0). simpl. lia. }
  pose proof (qsum_lower lo (y :: ys) (fun z Hz => proj1 (Hys z Hz))).
  pose proof (qsum_upper hi (y :: ys) (fun z Hz => proj2 (Hys z Hz))).
  fold n in H, H0. split.
  - apply Qle_shift_div_l; [exact Hn|]. rewrite Qmult_comm. exact H.
  - apply Qle_shift_div_r; [exact Hn|]. rewrite Qmult_comm. exact H0.
Qed.

Lemma groupby_mean_between (key : listing -> string) (col : listing -> option Q)
    (t : table) (lo hi : Q) k m :
  (forall i r x, In (i, r) t -> col r = Some x -> lo <= x <= hi) ->
  In (k, Some m) (groupby_mean key col t) -> lo <= m <= hi.
Proof.
  intros Hb Hin. unfold groupby_mean in Hin. apply in_map_iff in Hin as [k' [Hkv _]].
  injection Hkv as _ Hm. apply (mean_between _ _ _ _ Hm).
  intros x Hx. apply in_map_iff in Hx as [[i r] [Hx Hir]].
  unfold group_rows in Hir. apply mask_rows_In in Hir as [Hir _].
  exact (Hb i r x Hir Hx).
Qed.

Lemma filtered_price_between (c : criteria) (df : table) i r x :
  In (i, r) (filtered_df c df) -> price_col r = Some x ->
  inject_Z (min_price c) <= x <= inject_Z (max_price c).
Proof.
  intros Hin Hx. injection Hx as <-.
  rewrite filtered_df_mask in Hin. apply mask_rows_In in Hin as [_ Hm].
  apply row_mask_satisfies in Hm as (_ & _ & Hp & _). exact Hp.
Qed.

(** The average-price KPI of a non-empty filtered table is defined and
    lies within the price range of the slider. *)
Theorem kpi_avg_price_in_slider_range (c : criteria) (df : table) :
  filtered_df c df <> [] ->
  exists m, kpi_avg_price (filtered_df c df) = Some m /\
    inject_Z (min_price c) <= m <= inject_Z (max_price c).
Proof.
  intros Hne. unfold kpi_avg_price.
  destruct (mean (map (fun ir => price_col (snd ir)) (filtered_df c df))) as [m|] eqn:E.
  - exists m. split; [reflexivity|]. apply (mean_between _ _ _ _ E).
    intros x Hx. apply in_map_iff in Hx as [[i r] [Hx Hir]].
    exact (filtered_price_between c df i r x Hir Hx).
  - exfalso. apply mean_None_iff in E. rewrite List.Forall_forall in E.
    destruct (filtered_df c df) as [|[i r] t]; [exact (Hne eq_refl)|].
    specialize (E (price_col r) (or_introl eq_refl)). discriminate.
Qed.

(** Every mean price the neighbourhood ranking of the filtered table shows
    lies within the price range of the slider. *)
Theorem top_neigh_means_in_slider_range (c : criteria) (df : table)
    (ys : list (string * option Q)) :
  top_neigh (filtered_df c df) ys ->
  forall k m, In (k, Some m) ys ->
    inject_Z (min_price c) <= m <= inject_Z (max_price c).
Proof.
  intros [Hperm _] k m Hin.
  apply (groupby_mean_between neighbourhood_cleansed price_col (filtered_df c df) _ _ k).
  - intros i r x. apply filtered_price_between.
  - exact (Permutation_in _ (Permutation_sym Hperm) Hin).
Qed.

(** The availability ranking (line 105): every neighbourhood of the table
    appears once with a defined mean; the top 10 have at most 10 entries in
    non-increasing order; and when every [availability_365] lies in
    [[lo, hi]], so does every mean shown. *)
Theorem top_avail_spec (t : table) (ys : list (string * option Q)) :
  top_avail t ys ->
  map fst ys ≡ₚ group_keys neighbourhood_cleansed t /\
  (forall kv, In kv ys -> snd kv <> None) /\
  (length (head10 ys) <= 10)%nat /\
  Sorted (fun a b => ord_le false (snd a) (snd b)) (head10 ys) /\
  (forall lo hi : Z,
     (forall i r, In (i, r) t -> (lo <= availability_365 r <= hi)%Z) ->
     forall k m, In (k, Some m) ys -> inject_Z lo <= m <= inject_Z hi).
Proof.
  intros Hsort.
  assert (Hdef : forall kv, In kv (groupby_mean neighbourhood_cleansed availability_col t) ->
                            snd kv <> None).
  { intros kv. apply groupby_mean_defined. intros r. unfold availability_col. discriminate. }
  pose proof Hsort as [Hperm _].
  split.
  { rewrite <- Hperm. unfold groupby_mean. rewrite map_map. simpl. rewrite map_id. reflexivity. }
  split; [intros kv Hin; apply Hdef, (Permutation_in _ (Permutation_sym Hperm)), Hin|].
  split; [apply firstn_le_length|].
  split; [apply Sorted_firstn; eapply sort_values_no_nan; [exact Hdef|exact Hsort]|].
  intros lo hi Hb k m Hin.
  apply (groupby_mean_between neighbourhood_cleansed availability_col t _ _ k).
  - intros i r x Hir Hx. injection Hx as <-. destruct (Hb i r Hir) as [H1 H2].
    split; rewrite <- Zle_Qle; assumption.
  - exact (Permutation_in _ (Permutation_sym Hperm) Hin).
Qed.

(** ** Filters commute *)

(** Filtering an already filtered table with other criteria gives the
    same rows, in the same order, whichever criteria are applied first. *)
Theorem filtered_df_commute (c c' : criteria) (df : table) :
  filtered_df c (filtered_df c' df) = filtered_df c' (filtered_df c df).
Proof.
  rewrite !filtered_df_mask, !mask_rows_mask_rows. apply mask_rows_ext.
  intros r. apply andb_comm.
Qed.

(** ** The slider's widest range *)

(** With non-negative prices, the widest range the slider allows keeps
    every row when the maximum price is at most 500 (Streamlit widens the
    slider to the default's upper end) or a whole number. *)
Theorem slider_full_range_keeps_df (df : table) (lo hi : Z) :
  slider_bounds df = Some (lo, hi) ->
  (forall i r, In (i, r) df -> 0 <= price r) ->
  (forall p, price_max df = Some p -> p <= 500 \/ p == inject_Z (Qfloor p)) ->
  filtered_df (slider_range lo hi) df = df.
Proof.
  intros Hb Hpos Hmax. unfold slider_bounds in Hb.
  destruct (price_max df) as [p|] eqn:Hp; [|discriminate].
  assert (Hp0 : 0 <= p).
  { destruct df as [|[j s] df']; [discriminate|].
    apply Qle_trans with (price s); [exact (Hpos j s (or_introl eq_refl))|].
    exact (price_max_ge _ p j s Hp (or_introl eq_refl)). }
  assert (Hm : int_of_float p = Qfloor p).
  { unfold int_of_float.
    replace (Qle_bool 0 p) with true by (symmetry; apply Qle_bool_iff; exact Hp0).
    reflexivity. }
  assert (Hm0 : (0 <= Qfloor p)%Z).
  { change 0%Z with (Qfloor 0). apply Qfloor_resp_le. exact Hp0. }
  rewrite Hm in Hb. injection Hb as Hlo Hhi.
  assert (Hlo0 : lo = 0%Z) by lia.
  assert (Hhi' : (500 <= hi)%Z /\ (Qfloor p <= hi)%Z) by lia.
  rewrite filtered_df_mask. apply mask_rows_true. intros i r Hin.
  unfold row_mask, price_mask. simpl. rewrite andb_true_r. apply andb_true_iff. split.
  - apply Qle_bool_iff. rewrite Hlo0. exact (Hpos i r Hin).
  - apply Qle_bool_iff. apply Qle_trans with p; [exact (price_max_ge df p i r Hp Hin)|].
    destruct (Hmax p eq_refl) as [H500|Hwhole].
    + apply Qle_trans with (inject_Z 500); [exact H500|]. rewrite <- Zle_Qle. lia.
    + rewrite Hwhole. rewrite <- Zle_Qle. lia.
Qed.

(** ** Witnesses of the further properties *)

Lemma superhost_sample_top_neigh :
  top_neigh (filtered_df superhost_criteria sample_df)
    (groupby_mean neighbourhood_cleansed price_col (filtered_df superhost_criteria sample_df)).
Proof.
  split; [reflexivity|].
  exists (groupby_mean neighbourhood_cleansed price_col (filtered_df superhost_criteria sample_df)), [].
  vm_compute. split; [reflexivity|]. split; [constructor|]. split.
  - repeat constructor; discriminate.
  - repeat constructor. discriminate.
Qed.

Lemma sample_top_avail :
  top_avail sample_df (groupby_mean neighbourhood_cleansed availability_col sample_df).
Proof.
  split; [reflexivity|].
  exists (groupby_mean neighbourhood_cleansed availability_col sample_df), [].
  vm_compute. split; [reflexivity|]. split; [constructor|]. split.
  - repeat constructor; discriminate.
  - repeat constructor; discriminate.
Qed.

Lemma filtered_df_inverted_range_witness :
  (max_price (Build_criteria [] [] 500 100 false) < min_price (Build_criteria [] [] 500 100 false))%Z /\
  filtered_df (Build_criteria [] [] 500 100 false) sample_df = [].
Proof.
  split; [simpl; lia|]. apply (filtered_df_inverted_range (Build_criteria [] [] 500 100 false) sample_df). simpl. lia.
Defined.

Lemma filtered_df_monotone_witness :
  looser superhost_criteria (full_range 500) /\
  sublist (filtered_df superhost_criteria sample_df) (filtered_df (full_range 500) sample_df).
Proof.
  assert (H : looser superhost_criteria (full_range 500)).
  { split; [left; reflexivity|]. split; [left; reflexivity|].
    split; [simpl; lia|]. split; [simpl; lia|]. intros _; reflexivity. }
  split; [exact H|]. apply filtered_df_monotone. exact H.
Defined.

Lemma kpi_avg_price_in_slider_range_witness :
  filtered_df superhost_criteria sample_df <> [] /\
  exists m, kpi_avg_price (filtered_df superhost_criteria sample_df) = Some m /\
    inject_Z (min_price superhost_criteria) <= m <= inject_Z (max_price superhost_criteria).
Proof.
  assert (H : filtered_df superhost_criteria sample_df <> []) by (intros H; vm_compute in H; discriminate).
  split; [exact H|]. apply kpi_avg_price_in_slider_range. exact H.
Defined.

Lemma top_neigh_means_in_slider_range_witness :
  top_neigh (filtered_df superhost_criteria sample_df)
    (groupby_mean neighbourhood_cleansed price_col (filtered_df superhost_criteria sample_df)) /\
  forall k m, In (k, Some m) (groupby_mean neighbourhood_cleansed price_col
                                (filtered_df superhost_criteria sample_df)) ->
    inject_Z (min_price superhost_criteria) <= m <= inject_Z (max_price superhost_criteria).
Proof.
  split; [exact superhost_sample_top_neigh|].
  apply (top_neigh_means_in_slider_range superhost_criteria sample_df). exact superhost_sample_top_neigh.
Defined.

Lemma top_avail_spec_witness :
  top_avail sample_df (groupby_mean neighbourhood_cleansed availability_col sample_df) /\
  map fst (groupby_mean neighbourhood_cleansed availability_col sample_df)
    ≡ₚ group_keys neighbourhood_cleansed sample_df /\
  (forall kv, In kv (groupby_mean neighbourhood_cleansed availability_col sample_df) -> snd kv <> None) /\
  (length (head10 (groupby_mean neighbourhood_cleansed availability_col sample_df)) <= 10)%nat /\
  Sorted (fun a b => ord_le false (snd a) (snd b))
    (head10 (groupby_mean neighbourhood_cleansed availability_col sample_df)) /\
  (forall lo hi : Z,
     (forall i r, In (i, r) sample_df -> (lo <= availability_365 r <= hi)%Z) ->
     forall k m, In (k, Some m) (groupby_mean neighbourhood_cleansed availability_col sample_df) ->
       inject_Z lo <= m <= inject_Z hi).
Proof.
  split; [exact sample_top_avail|]. apply top_avail_spec. exact sample_top_avail.
Defined.

Lemma slider_full_range_keeps_df_witness :
  slider_bounds sample_df = Some (0%Z, 500%Z) /\
  (forall i r, In (i, r) sample_df -> 0 <= price r) /\
  (forall p, price_max sample_df = Some p -> p <= 500 \/ p == inject_Z (Qfloor p)) /\
  filtered_df (slider_range 0 500) sample_df = sample_df.
Proof.
  assert (Hb : slider_bounds sample_df = Some (0%Z, 500%Z)) by reflexivity.
  assert (Hm : forall p, price_max sample_df = Some p -> p <= 500 \/ p == inject_Z (Qfloor p)).
  { intros p Hp. vm_compute in Hp. injection Hp as <-. left. discriminate. }
  split; [exact Hb|]. split; [exact sample_prices_nonneg|]. split; [exact Hm|].
  apply (slider_full_range_keeps_df sample_df 0 500); [exact Hb|exact sample_prices_nonneg|exact Hm].
Defined.
